(** * plot_results.py: aggregation and complexity verification of heap-sort
      benchmark trials

    Shallow embedding of [src/plot_results.py].  The script is one
    top-level sequence of statements; every block of it that computes a
    value is a definition below that keeps the name of the Python
    variable it assigns.  Calls into the charting library only consume
    the computed lists and are left out, so the definitions describe the
    separate computations of the script, not a run of the whole file.

    Rows.  The rows are those [csv.DictReader] yields: it drops the
    lines of the file that are completely empty before the loop of the
    script sees them.  The builtins [int] and [float] that convert the
    text of a field are parameters of the development.

    Numbers.  Python [int] is [Z].  A [numpy.float64] is modelled by
    [float64]: a real number or one of the IEEE special values [inf],
    [-inf], [nan].  Operations on finite values are exact real
    arithmetic: rounding to 53 bits, the overflow of a finite result to
    an infinity and the sign of zero are abstracted.  The special values
    follow IEEE 754 as numpy implements it, where a division by zero or
    the logarithm of a non-positive number produces a special value and
    a warning, never an exception.  Properties below that give a finite
    value bound the operands where a float64 result could overflow, and
    no property relies on two different roundings agreeing. *)

From Stdlib Require Import Reals Lra Lia ZArith Ascii.
From stdpp Require Import base list sorting gmap strings.

Local Open Scope Z_scope.

(** ** Exceptions and the result monad *)

Inductive exn : Type :=
  | KeyError (key : string)
  | TypeError
  | ValueError (literal : string)
  | IndexError
  | ZeroDivisionError
  | OverflowError.

Definition result (A : Type) : Type := exn + A.

Definition ok {A} (a : A) : result A := inr a.
Definition raise {A} (e : exn) : result A := inl e.

#[global] Instance result_ret : MRet result := λ A a, inr a.
#[global] Instance result_bind : MBind result := λ A B k m,
  match m with
  | inl e => inl e
  | inr a => k a
  end.
#[global] Instance result_fmap : FMap result := λ A B f m,
  match m with
  | inl e => inl e
  | inr a => inr (f a)
  end.

(** ** numpy.float64 *)

Inductive float64 : Type :=
  | Fin (r : R)
  | PInf
  | NInf
  | NaN.

Module NP.

(** Sign of a real, as the three-way case split the IEEE rules need. *)
Definition Rsign (r : R) : comparison :=
  match total_order_T r 0 with
  | inleft (left _) => Lt
  | inleft (right _) => Eq
  | inright _ => Gt
  end.

(** The infinity of the given sign; [nan] for sign zero. *)
Definition inf_of (s : comparison) : float64 :=
  match s with
  | Gt => PInf
  | Lt => NInf
  | Eq => NaN
  end.

Definition of_Z (n : Z) : float64 := Fin (IZR n).
Definition of_nat (n : nat) : float64 := Fin (INR n).

Definition neg (x : float64) : float64 :=
  match x with
  | Fin r => Fin (- r)
  | PInf => NInf
  | NInf => PInf
  | NaN => NaN
  end.

Definition add (x y : float64) : float64 :=
  match x, y with
  | NaN, _ | _, NaN => NaN
  | Fin a, Fin b => Fin (a + b)
  | PInf, NInf | NInf, PInf => NaN
  | PInf, _ | _, PInf => PInf
  | NInf, _ | _, NInf => NInf
  end.

Definition sub (x y : float64) : float64 := add x (neg y).

Definition mul (x y : float64) : float64 :=
  match x, y with
  | NaN, _ | _, NaN => NaN
  | Fin a, Fin b => Fin (a * b)
  | Fin a, PInf | PInf, Fin a => inf_of (Rsign a)
  | Fin a, NInf | NInf, Fin a => inf_of (CompOpp (Rsign a))
  | PInf, PInf | NInf, NInf => PInf
  | PInf, NInf | NInf, PInf => NInf
  end.

(** [x / y]: a zero divisor gives an infinity of the sign of [x], or
    [nan] when [x] is zero as well. *)
Definition div (x y : float64) : float64 :=
  match x, y with
  | NaN, _ | _, NaN => NaN
  | Fin a, Fin b =>
      match Rsign b with
      | Eq => inf_of (Rsign a)
      | _ => Fin (a / b)
      end
  | Fin _, PInf | Fin _, NInf => Fin 0
  | PInf, Fin b =>
      match Rsign b with Lt => NInf | _ => PInf end
  | NInf, Fin b =>
      match Rsign b with Lt => PInf | _ => NInf end
  | PInf, PInf | PInf, NInf | NInf, PInf | NInf, NInf => NaN
  end.

Definition abs (x : float64) : float64 :=
  match x with
  | Fin r => Fin (Rabs r)
  | PInf | NInf => PInf
  | NaN => NaN
  end.

Definition sqrt (x : float64) : float64 :=
  match x with
  | Fin r => match Rsign r with Lt => NaN | _ => Fin (R_sqrt.sqrt r) end
  | PInf => PInf
  | NInf | NaN => NaN
  end.

(** [np.log2]: [-inf] at zero, [nan] below zero. *)
Definition log2 (x : float64) : float64 :=
  match x with
  | Fin r =>
      match Rsign r with
      | Gt => Fin (ln r / ln 2)
      | Eq => NInf
      | Lt => NaN
      end
  | PInf => PInf
  | NInf | NaN => NaN
  end.

Definition sum (xs : list float64) : float64 := foldr add (Fin 0) xs.

(** [np.mean]: the sum over the length; [nan] for the empty list. *)
Definition mean (xs : list float64) : float64 :=
  div (sum xs) (of_nat (length xs)).

(** [np.std] with its default [ddof=0]:
    [sqrt(mean(abs(x - x.mean())**2))]. *)
Definition std (xs : list float64) : float64 :=
  let m := mean xs in
  sqrt (mean ((λ x, let d := abs (sub x m) in mul d d) <$> xs)).

End NP.

(** ** Python builtins used by the script *)

Module Py.

(** [xs[i]] on a list: a negative index counts from the end, anything
    outside [-len, len) raises [IndexError]. *)
Definition getitem {A} (xs : list A) (i : Z) : result A :=
  let len := Z.of_nat (length xs) in
  let j := if i <? 0 then len + i else i in
  if (0 <=? j) && (j <? len)
  then match xs !! Z.to_nat j with
       | Some x => ok x
       | None => raise IndexError
       end
  else raise IndexError.

(** The least magnitude that rounds to an infinity in [float64]: half
    way between the largest finite value and [2 ^ 1024]. *)
Definition float_overflow : Z := 2 ^ 1024 - 2 ^ 970.

(** [a / b] on two [int]s: true division.  [ZeroDivisionError] when [b]
    is zero, [OverflowError] when the quotient is too large for a
    [float]. *)
Definition truediv (a b : Z) : result float64 :=
  if b =? 0 then raise ZeroDivisionError
  else if float_overflow * Z.abs b <=? Z.abs a then raise OverflowError
  else ok (Fin (IZR a / IZR b)).

(** [enumerate(xs)], counting from [start]. *)
Fixpoint enumerate_from {A} (start : nat) (xs : list A) : list (nat * A) :=
  match xs with
  | [] => []
  | x :: xs => (start, x) :: enumerate_from (S start) xs
  end.

Definition enumerate {A} (xs : list A) : list (nat * A) :=
  enumerate_from 0 xs.

(** [sorted(set(xs))]. *)
Definition sorted_set (xs : list Z) : list Z :=
  merge_sort Z.le (elements (list_to_set xs : gset Z)).

(** *** Numeric literals

    An instance of the builtins [int] and [float] on the text of a
    field, for texts made of ASCII characters: surrounding blanks are
    stripped, a sign may come first, digits may be grouped by single
    underscores, [float] takes a fraction, an exponent, and the words
    [inf], [infinity] and [nan] in any case.  A literal too large for a
    [float64] is an infinity.  [None] stands for the [ValueError] the
    builtin raises.  Digits and blanks outside ASCII, and the limit that
    newer versions of Python put on the number of digits of an [int]
    literal, are left out.  The examples at the end of the file use
    these two functions; the properties of the loader hold for any
    [int] and [float]. *)

Definition digit_of (c : Ascii.ascii) : option Z :=
  let n := Z.of_nat (Ascii.nat_of_ascii c) in
  if (48 <=? n) && (n <=? 57) then Some (n - 48) else None.

Definition is_space (c : Ascii.ascii) : bool :=
  let n := Z.of_nat (Ascii.nat_of_ascii c) in
  ((9 <=? n) && (n <=? 13)) || ((28 <=? n) && (n <=? 32)).

Fixpoint lstrip (cs : list Ascii.ascii) : list Ascii.ascii :=
  match cs with
  | c :: cs' => if is_space c then lstrip cs' else cs
  | [] => []
  end.

Definition strip (cs : list Ascii.ascii) : list Ascii.ascii :=
  reverse (lstrip (reverse (lstrip cs))).

Definition lower (c : Ascii.ascii) : Ascii.ascii :=
  let n := Ascii.nat_of_ascii c in
  if ((65 <=? n) && (n <=? 90))%nat then Ascii.ascii_of_nat (n + 32) else c.

(** A run of digits with single underscores between them: its value,
    the number of its digits, and the text after it. *)
Fixpoint digitpart (acc : Z) (count : nat) (cs : list Ascii.ascii)
  : Z * nat * list Ascii.ascii :=
  match cs with
  | [] => (acc, count, cs)
  | c :: cs' =>
      match digit_of c with
      | Some d => digitpart (10 * acc + d) (S count) cs'
      | None =>
          match c, count, cs' with
          | "_"%char, S _, d :: _ =>
              match digit_of d with
              | Some _ => digitpart acc count cs'
              | None => (acc, count, cs)
              end
          | _, _, _ => (acc, count, cs)
          end
      end
  end.

Definition split_sign (cs : list Ascii.ascii) : bool * list Ascii.ascii :=
  match cs with
  | "-"%char :: cs' => (true, cs')
  | "+"%char :: cs' => (false, cs')
  | _ => (false, cs)
  end.

Definition int (s : string) : option Z :=
  let '(negative, ds) := split_sign (strip (String.list_ascii_of_string s)) in
  match digitpart 0 0 ds with
  | (n, S _, []) => Some (if negative then - n else n)
  | _ => None
  end.

(** The [float64] of the decimal [m * 10 ^ e], for [m >= 0]. *)
Definition decimal (negative : bool) (m e : Z) : float64 :=
  let num := if 0 <=? e then m * 10 ^ e else m in
  let den := if 0 <=? e then 1 else 10 ^ (- e) in
  if float_overflow * den <=? num
  then (if negative then NInf else PInf)
  else Fin (if negative then - (IZR num / IZR den) else IZR num / IZR den)%R.

(** The exponent after the mantissa: nothing, or [e], a sign and
    digits. *)
Definition exponent (cs : list Ascii.ascii) : option Z :=
  match cs with
  | [] => Some 0
  | c :: cs' =>
      if Ascii.eqb (lower c) "e"%char then
        let '(negative, ds) := split_sign cs' in
        match digitpart 0 0 ds with
        | (x, S _, []) => Some (if negative then - x else x)
        | _ => None
        end
      else None
  end.

Definition float (s : string) : option float64 :=
  let '(negative, ds) := split_sign (strip (String.list_ascii_of_string s)) in
  let word := String.string_of_list_ascii (lower <$> ds) in
  if String.eqb word "inf" || String.eqb word "infinity"
  then Some (if negative then NInf else PInf)
  else if String.eqb word "nan" then Some NaN
  else
    let '(i, ci, r1) := digitpart 0 0 ds in
    let '(f, cf, r2) :=
      match r1 with
      | "."%char :: r => digitpart 0 0 r
      | _ => (0, 0%nat, r1)
      end in
    match (ci + cf)%nat, exponent r2 with
    | S _, Some x =>
        Some (decimal negative (i * 10 ^ Z.of_nat cf + f) (x - Z.of_nat cf))
    | _, _ => None
    end.

End Py.

(** [np.log2(n)] on a Python [int].  numpy takes the integer as a signed
    or an unsigned 64-bit integer and converts it to [float64]; an
    integer that fits neither has no [log2], and [TypeError] is
    raised. *)
Definition int64_or_uint64 (n : Z) : bool :=
  (- 2 ^ 63 <=? n) && (n <? 2 ^ 64).

Definition np_log2 (n : Z) : result float64 :=
  if int64_or_uint64 n then ok (NP.log2 (NP.of_Z n)) else raise TypeError.

(** ** Reading the CSV (lines 11-29) *)

(** One row as [csv.DictReader] yields it: a dict from the header's field
    names to the row's text; a field the row is too short for is [None]. *)
Abbreviation row := (gmap string (option string)).

(** The six parallel lists the script fills. *)
Record columns : Type := Columns {
  sizes : list Z;
  times : list float64;
  comparisons : list Z;
  swaps : list Z;
  heapify_ops : list Z;
  memory : list Z;
}.

(** One loaded measurement: the values a row appends to the six lists. *)
Record Trial : Type := MkTrial {
  input_size : Z;
  time_ms : float64;
  trial_comparisons : Z;
  trial_swaps : Z;
  trial_heapify_ops : Z;
  memory_kb : Z;
}.

Definition no_columns : columns := Columns [] [] [] [] [] [].

Definition append_trial (c : columns) (t : Trial) : columns :=
  {| sizes := sizes c ++ [input_size t];
     times := times c ++ [time_ms t];
     comparisons := comparisons c ++ [trial_comparisons t];
     swaps := swaps c ++ [trial_swaps t];
     heapify_ops := heapify_ops c ++ [trial_heapify_ops t];
     memory := memory c ++ [memory_kb t] |}.

(** The columns a sequence of trials loads to. *)
Definition columns_of (ts : list Trial) : columns :=
  {| sizes := input_size <$> ts;
     times := time_ms <$> ts;
     comparisons := trial_comparisons <$> ts;
     swaps := trial_swaps <$> ts;
     heapify_ops := trial_heapify_ops <$> ts;
     memory := memory_kb <$> ts |}.

Section Script.

(** The builtins [int] and [float] on a text: the value, or [None] when
    the builtin raises [ValueError]. *)
Variable py_int : string → option Z.
Variable py_float : string → option float64.

(** [row[key]]: [KeyError] when the header has no such field. *)
Definition field (r : row) (key : string) : result (option string) :=
  match r !! key with
  | Some v => ok v
  | None => raise (KeyError key)
  end.

(** [int(row[key])]; [int(None)] raises [TypeError], a text that is no
    integer raises [ValueError] with that text. *)
Definition int_field (r : row) (key : string) : result Z :=
  v ← field r key;
  match v with
  | Some s =>
      match py_int s with
      | Some n => ok n
      | None => raise (ValueError s)
      end
  | None => raise TypeError
  end.

(** [float(row[key])]. *)
Definition float_field (r : row) (key : string) : result float64 :=
  v ← field r key;
  match v with
  | Some s =>
      match py_float s with
      | Some x => ok x
      | None => raise (ValueError s)
      end
  | None => raise TypeError
  end.

(** The body of the reading loop: the six conversions in source order.
    The first one that raises ends the script, so the values appended
    before it in the same iteration are never seen. *)
Definition read_row (r : row) : result Trial :=
  n ← int_field r "InputSize";
  t ← float_field r "TimeMillis";
  c ← int_field r "Comparisons";
  s ← int_field r "Swaps";
  h ← int_field r "HeapifyOps";
  m ← int_field r "MemoryKB";
  ok (MkTrial n t c s h m).

Fixpoint read_rows (c : columns) (rows : list row) : result columns :=
  match rows with
  | [] => ok c
  | r :: rows' =>
      t ← read_row r;
      read_rows (append_trial c t) rows'
  end.

Definition read_csv (rows : list row) : result columns :=
  read_rows no_columns rows.

(** ** Averages for each unique size (lines 31-47) *)

Definition unique_sizes (c : columns) : list Z := Py.sorted_set (sizes c).

(** [[i for i, s in enumerate(sizes) if s == size]] *)
Definition indices (sizes : list Z) (size : Z) : list nat :=
  (filter (λ p, p.2 = size) (Py.enumerate sizes)).*1.

(** [[xs[i] for i in indices]] *)
Definition gather {A} (xs : list A) (indices : list nat) : result (list A) :=
  mapM (λ i : nat, Py.getitem xs (Z.of_nat i)) indices.

(** The six result lists, one entry per unique size. *)
Record aggregates : Type := Aggregates {
  avg_times : list float64;
  avg_comparisons : list float64;
  avg_swaps : list float64;
  avg_heapify : list float64;
  avg_memory : list float64;
  std_times : list float64;
}.

Definition no_aggregates : aggregates := Aggregates [] [] [] [] [] [].

(** [np.mean] of a list of [int]s converts them to [float64] first. *)
Definition mean_int (xs : list Z) : float64 := NP.mean (NP.of_Z <$> xs).

(** The body of the loop over [unique_sizes]. *)
Definition aggregate_size (c : columns) (a : aggregates) (size : Z)
  : result aggregates :=
  let indices := indices (sizes c) size in
  ts ← gather (times c) indices;
  cs ← gather (comparisons c) indices;
  ss ← gather (swaps c) indices;
  hs ← gather (heapify_ops c) indices;
  ms ← gather (memory c) indices;
  ts' ← gather (times c) indices;
  ok {| avg_times := avg_times a ++ [NP.mean ts];
        avg_comparisons := avg_comparisons a ++ [mean_int cs];
        avg_swaps := avg_swaps a ++ [mean_int ss];
        avg_heapify := avg_heapify a ++ [mean_int hs];
        avg_memory := avg_memory a ++ [mean_int ms];
        std_times := std_times a ++ [NP.std ts'] |}.

Fixpoint aggregate_loop (c : columns) (a : aggregates) (us : list Z)
  : result aggregates :=
  match us with
  | [] => ok a
  | size :: us' =>
      a' ← aggregate_size c a size;
      aggregate_loop c a' us'
  end.

Definition group_and_aggregate (c : columns) : result aggregates :=
  aggregate_loop c no_aggregates (unique_sizes c).

(** ** Annotation of the largest size (lines 67-73) *)


(** ** Theoretical curves (lines 91, 111, 122-123) *)

(** [n * np.log2(n)] for an [int] [n]. *)
Definition size_log (n : Z) : result float64 :=
  l ← np_log2 n;
  ok (NP.mul (NP.of_Z n) l).

(** The element of [theoretical] for size [n]:
    [n * np.log2(n) * 1.44]. *)
Definition theoretical_comparisons (n : Z) : result float64 :=
  x ← size_log n;
  ok (NP.mul x (Fin 1.44)).

Definition theoretical (us : list Z) : result (list float64) :=
  mapM theoretical_comparisons us.

Definition theoretical_swaps (us : list Z) : list Z :=
  (λ n, n - 1) <$> us.

Definition n_log_n (us : list Z) : result (list float64) :=
  mapM size_log us.

(** [[t / nl for t, nl in zip(avg_times, n_log_n)]] *)
Definition normalized_time (avg : list float64) (nl : list float64)
  : list float64 :=
  zip_with NP.div avg nl.

(** ** Growth rate analysis (lines 191-202) *)

Record growth : Type := Growth {
  growth_ratios : list float64;
  size_ratios : list float64;
}.

(** The body of the loop over [range(1, len(unique_sizes))].  The
    quotient [size_ratio] of the two sizes is computed and not used. *)
Definition growth_step (us : list Z) (avg : list float64)
    (g : growth) (i : nat) : result growth :=
  let i := Z.of_nat i in
  t_i ← Py.getitem avg i;
  t_p ← Py.getitem avg (i - 1);
  let time_ratio := NP.div t_i t_p in
  n_i ← Py.getitem us i;
  n_p ← Py.getitem us (i - 1);
  size_ratio ← Py.truediv n_i n_p;
  l_i ← size_log n_i;
  l_p ← size_log n_p;
  let theoretical_ratio := NP.div l_i l_p in
  ok {| growth_ratios := growth_ratios g ++ [time_ratio];
        size_ratios := size_ratios g ++ [theoretical_ratio] |}.

Fixpoint growth_loop (us : list Z) (avg : list float64)
    (g : growth) (range : list nat) : result growth :=
  match range with
  | [] => ok g
  | i :: range' =>
      g' ← growth_step us avg g i;
      growth_loop us avg g' range'
  end.

(** [None] when the guard [len(unique_sizes) > 1] fails and the two
    lists are never created. *)
Definition growth_transitions (us : list Z) (avg : list float64)
  : result (option growth) :=
  if (1 <? length us)%nat
  then Some <$> growth_loop us avg (Growth [] []) (seq 1 (length us - 1))
  else ok None.

(** ** Complexity verification (lines 264-266) *)

Record summary : Type := Summary {
  summary_mean : float64;
  summary_std : float64;
  summary_cv : float64;
}.

(** [(np.std(x) / np.mean(x)) * 100] *)
Definition coefficient_of_variation (xs : list float64) : float64 :=
  NP.mul (NP.div (NP.std xs) (NP.mean xs)) (Fin 100).

Definition complexity_verification (nt : list float64) : summary :=
  {| summary_mean := NP.mean nt;
     summary_std := NP.std nt;
     summary_cv := coefficient_of_variation nt |}.

(** ** The properties in the words of the specification

    A size group is the trials of one input size; a record holds the
    means over the group and the population standard deviation of its
    times.  These are compared with the loop of the script below. *)

Definition size_group (ts : list Trial) (n : Z) : list Trial :=
  filter (λ t, input_size t = n) ts.

Definition aggregates_by_group (ts : list Trial) (us : list Z) : aggregates :=
  {| avg_times := (λ n, NP.mean (time_ms <$> size_group ts n)) <$> us;
     avg_comparisons :=
       (λ n, mean_int (trial_comparisons <$> size_group ts n)) <$> us;
     avg_swaps := (λ n, mean_int (trial_swaps <$> size_group ts n)) <$> us;
     avg_heapify :=
       (λ n, mean_int (trial_heapify_ops <$> size_group ts n)) <$> us;
     avg_memory := (λ n, mean_int (memory_kb <$> size_group ts n)) <$> us;
     std_times := (λ n, NP.std (time_ms <$> size_group ts n)) <$> us |}.

(** Sum, mean and population standard deviation of finitely many reals. *)
Definition Rsum (rs : list R) : R := foldr Rplus 0%R rs.

Definition Rmean (rs : list R) : R := (Rsum rs / INR (length rs))%R.

Definition population_std (rs : list R) : R :=
  R_sqrt.sqrt
    (Rsum ((λ x, (x - Rmean rs) * (x - Rmean rs))%R <$> rs)
     / INR (length rs)).

(** The texts of the six fields of a row of the file, and whether [int]
    converts the field ([float] otherwise), in the order the loop
    converts them. *)
Definition required_fields : list (string * bool) :=
  [("InputSize", true); ("TimeMillis", false); ("Comparisons", true);
   ("Swaps", true); ("HeapifyOps", true); ("MemoryKB", true)].

(** The builtin for a field rejects the text. *)
Definition rejects (is_int : bool) (s : string) : Prop :=
  if is_int then py_int s = None else py_float s = None.

(** The field is absent from the header, absent from the row, or holds a
    text that is not a number; [e] is what its conversion raises. *)
Definition field_fails (r : row) (f : string * bool) (e : exn) : Prop :=
  (r !! f.1 = None ∧ e = KeyError f.1) ∨
  (r !! f.1 = Some None ∧ e = TypeError) ∨
  (∃ s, r !! f.1 = Some (Some s) ∧ rejects f.2 s ∧ e = ValueError s).

(** A row with a field that is missing or does not convert. *)
Definition malformed (r : row) : Prop :=
  ∃ f e, f ∈ required_fields ∧ field_fails r f e.

(** A row of a file whose header has the six columns and whose line has
    the six texts. *)
Definition csv_row (n t c s h m : string) : row :=
  list_to_map
    [("InputSize", Some n); ("TimeMillis", Some t); ("Comparisons", Some c);
     ("Swaps", Some s); ("HeapifyOps", Some h); ("MemoryKB", Some m)].

(** * Properties *)

(** ** Arithmetic of [float64] *)

Lemma Rsign_pos r : (0 < r)%R → NP.Rsign r = Gt.
Proof.
  intros. unfold NP.Rsign.
  destruct (total_order_T r 0) as [[?|?]|?]; [lra..|done].
Qed.

Lemma Rsign_neg r : (r < 0)%R → NP.Rsign r = Lt.
Proof.
  intros. unfold NP.Rsign.
  destruct (total_order_T r 0) as [[?|?]|?]; [done|lra..].
Qed.

Lemma Rsign_zero r : r = 0%R → NP.Rsign r = Eq.
Proof.
  intros. unfold NP.Rsign.
  destruct (total_order_T r 0) as [[?|?]|?]; [lra|done|lra].
Qed.

Lemma log2_pos r : (1 < r)%R → (0 < ln r / ln 2)%R.
Proof.
  intros. apply Rdiv_lt_0_compat; rewrite <- ln_1; apply ln_increasing; lra.
Qed.

(** ** [np.log2] on sizes *)

Lemma int64_or_uint64_spec (n : Z) :
  int64_or_uint64 n = true ↔ - 2 ^ 63 ≤ n < 2 ^ 64.
Proof.
  unfold int64_or_uint64. rewrite andb_true_iff, Z.leb_le, Z.ltb_lt. done.
Qed.

Lemma size_log_in_range (n : Z) :
  int64_or_uint64 n = true →
  size_log n = ok (NP.mul (NP.of_Z n) (NP.log2 (NP.of_Z n))).
Proof. intros Hn. unfold size_log, np_log2. by rewrite Hn. Qed.

Lemma size_log_out_of_range (n : Z) :
  int64_or_uint64 n = false → size_log n = raise TypeError.
Proof. intros Hn. unfold size_log, np_log2. by rewrite Hn. Qed.

Lemma n_log2_gt_1 (n : Z) :
  1 < n →
  NP.mul (NP.of_Z n) (NP.log2 (NP.of_Z n))
  = Fin (IZR n * (ln (IZR n) / ln 2)).
Proof.
  intros Hn. unfold NP.of_Z, NP.log2.
  assert (1 < IZR n)%R by (apply IZR_lt in Hn; done).
  rewrite Rsign_pos by lra. done.
Qed.

Lemma n_log2_1 : NP.mul (NP.of_Z 1) (NP.log2 (NP.of_Z 1)) = Fin 0.
Proof.
  unfold NP.of_Z, NP.log2.
  rewrite Rsign_pos by lra. simpl. f_equal. rewrite ln_1. lra.
Qed.

Lemma n_log2_le_0 (n : Z) :
  n ≤ 0 → NP.mul (NP.of_Z n) (NP.log2 (NP.of_Z n)) = NaN.
Proof.
  intros Hn. unfold NP.of_Z, NP.log2.
  apply IZR_le in Hn.
  destruct (Rtotal_order (IZR n) 0) as [H | [H | H]]; [| |lra].
  - rewrite Rsign_neg by done. done.
  - rewrite Rsign_zero by done. simpl. rewrite Rsign_zero by done. done.
Qed.

Lemma n_log2_gt_1_pos (n : Z) :
  1 < n → (0 < IZR n * (ln (IZR n) / ln 2))%R.
Proof.
  intros Hn. apply IZR_lt in Hn.
  apply Rmult_lt_0_compat; [lra | by apply log2_pos].
Qed.

Lemma bind_ok {A B} (a : A) (k : A → result B) : (ok a ≫= k) = k a.
Proof. reflexivity. Qed.

(** A list comprehension over the sizes that calls [np.log2] returns
    when every size is a 64-bit integer and raises [TypeError]
    otherwise. *)
Lemma mapM_in_range {B} (f : Z → result B) (g : Z → B) (us : list Z) :
  (∀ n, int64_or_uint64 n = true → f n = ok (g n)) →
  Forall (λ n, int64_or_uint64 n = true) us →
  mapM f us = ok (g <$> us).
Proof.
  intros Hf. induction 1 as [|n us Hn _ IH]; [done|].
  cbn [mapM]. rewrite (Hf n Hn), bind_ok, IH. done.
Qed.

Lemma mapM_out_of_range {B} (f : Z → result B) (g : Z → B) (us : list Z) :
  (∀ n, int64_or_uint64 n = true → f n = ok (g n)) →
  (∀ n, int64_or_uint64 n = false → f n = raise TypeError) →
  ¬ Forall (λ n, int64_or_uint64 n = true) us →
  mapM f us = raise TypeError.
Proof.
  intros Hok Hraise. induction us as [|n us IH]; intros Hnot.
  - destruct Hnot. constructor.
  - cbn [mapM]. destruct (int64_or_uint64 n) eqn:Hn.
    + rewrite (Hok n Hn), bind_ok, IH; [done|].
      intros Hus. apply Hnot. by constructor.
    + by rewrite (Hraise n Hn).
Qed.

(** ** Theoretical curves *)

(** C3, as the code has it: the curve [theoretical_swaps] holds [n - 1]
    for every unique size [n], whatever its sign; it has one entry per
    size. *)
Theorem theoretical_swaps_pred (us : list Z) (i : nat) :
  length (theoretical_swaps us) = length us ∧
  theoretical_swaps us !! i = (λ n, n - 1) <$> us !! i.
Proof.
  unfold theoretical_swaps. split.
  - apply length_fmap.
  - apply list_lookup_fmap.
Qed.

(** C3 as stated fails at size 0: the entry is [-1], not [0]. *)
Lemma theoretical_swaps_zero :
  theoretical_swaps [0] = [-1] ∧ theoretical_swaps [0] ≠ [0].
Proof. split; [reflexivity | discriminate]. Qed.

(** C4, as the code has it: for a size that fits a 64-bit integer,
    [n * np.log2(n) * 1.44] is the finite product for [n > 1], zero at
    [n = 1], and [nan] for [n <= 0] (where [np.log2] gives [-inf] or
    [nan]); for any other size [np.log2] raises [TypeError]. *)
Theorem theoretical_comparisons_cases (n : Z) :
  theoretical_comparisons n =
    if int64_or_uint64 n
    then ok (if 1 <? n then Fin (IZR n * (ln (IZR n) / ln 2) * 1.44)
             else if n =? 1 then Fin 0
             else NaN)
    else raise TypeError.
Proof.
  unfold theoretical_comparisons.
  destruct (int64_or_uint64 n) eqn:Hr.
  - rewrite size_log_in_range, bind_ok by done.
    destruct (Z.ltb_spec 1 n) as [Hn | Hn].
    + by rewrite n_log2_gt_1.
    + destruct (Z.eqb_spec n 1) as [-> | Hne].
      * rewrite n_log2_1. simpl. do 2 f_equal. lra.
      * rewrite n_log2_le_0 by lia. done.
  - by rewrite size_log_out_of_range.
Qed.

(** C4 as stated fails at size 0: the value is [nan], not 0. *)
Lemma theoretical_comparisons_zero :
  theoretical [0] = ok [NaN] ∧ theoretical_comparisons 0 ≠ ok (Fin 0).
Proof.
  unfold theoretical, theoretical_comparisons. cbn [mapM].
  rewrite (size_log_in_range 0), bind_ok by reflexivity.
  rewrite (n_log2_le_0 0) by lia. split; done.
Qed.

(** ** The aggregation loop *)

Lemma getitem_lookup {A} (xs : list A) (i : nat) (x : A) :
  xs !! i = Some x → Py.getitem xs (Z.of_nat i) = ok x.
Proof.
  intros Hx. pose proof (lookup_lt_Some _ _ _ Hx) as Hlt.
  unfold Py.getitem.
  destruct (Z.ltb_spec (Z.of_nat i) 0) as [|_]; [lia|].
  destruct (Z.leb_spec 0 (Z.of_nat i)) as [_|]; [|lia].
  destruct (Z.ltb_spec (Z.of_nat i) (Z.of_nat (length xs))) as [_|]; [|lia].
  simpl. by rewrite Nat2Z.id, Hx.
Qed.

Lemma gather_cons {A} (xs : list A) (i : nat) (idx : list nat) :
  gather xs (i :: idx) =
    x ← Py.getitem xs (Z.of_nat i); k ← gather xs idx; mret (x :: k).
Proof. reflexivity. Qed.


(** The indices of one size select, in input order, the trials of that
    size: the gathered column is the column of the size group. *)
Lemma gather_enumerate_from {A} (f : Trial → A) (n : Z)
    (done_ ts : list Trial) :
  gather (f <$> (done_ ++ ts))
    (filter (λ p, p.2 = n)
       (Py.enumerate_from (length done_) (input_size <$> ts))).*1
  = ok (f <$> size_group ts n).
Proof.
  revert done_. induction ts as [|t ts IH]; intros done_; [done|].
  specialize (IH (done_ ++ [t])).
  rewrite <- app_assoc, length_app, Nat.add_1_r in IH.
  change ([t] ++ ts) with (t :: ts) in IH.
  unfold size_group. rewrite fmap_cons.
  change (Py.enumerate_from ?k (?x :: ?l))
    with ((k, x) :: Py.enumerate_from (S k) l).
  rewrite !filter_cons.
  change ((length done_, input_size t).2) with (input_size t).
  destruct (decide (input_size t = n)) as [Heq | Hne]; [|exact IH].
  rewrite !fmap_cons, gather_cons.
  rewrite (getitem_lookup _ _ (f t)).
  - rewrite bind_ok, IH, bind_ok. done.
  - rewrite list_lookup_fmap, lookup_app_r, Nat.sub_diag by done. done.
Qed.

Lemma gather_indices {A} (f : Trial → A) (n : Z) (ts : list Trial) :
  gather (f <$> ts) (indices (input_size <$> ts) n)
  = ok (f <$> size_group ts n).
Proof. apply (gather_enumerate_from f n [] ts). Qed.

Lemma aggregate_size_columns_of (ts : list Trial) (a : aggregates) (n : Z) :
  aggregate_size (columns_of ts) a n =
    ok {| avg_times := avg_times a ++ [NP.mean (time_ms <$> size_group ts n)];
          avg_comparisons := avg_comparisons a
            ++ [mean_int (trial_comparisons <$> size_group ts n)];
          avg_swaps := avg_swaps a
            ++ [mean_int (trial_swaps <$> size_group ts n)];
          avg_heapify := avg_heapify a
            ++ [mean_int (trial_heapify_ops <$> size_group ts n)];
          avg_memory := avg_memory a
            ++ [mean_int (memory_kb <$> size_group ts n)];
          std_times := std_times a
            ++ [NP.std (time_ms <$> size_group ts n)] |}.
Proof.
  unfold aggregate_size, columns_of. simpl.
  rewrite !gather_indices. done.
Qed.

Lemma aggregate_loop_columns_of (ts : list Trial) (us : list Z)
    (a : aggregates) :
  aggregate_loop (columns_of ts) a us =
    let b := aggregates_by_group ts us in
    ok {| avg_times := avg_times a ++ avg_times b;
          avg_comparisons := avg_comparisons a ++ avg_comparisons b;
          avg_swaps := avg_swaps a ++ avg_swaps b;
          avg_heapify := avg_heapify a ++ avg_heapify b;
          avg_memory := avg_memory a ++ avg_memory b;
          std_times := std_times a ++ std_times b |}.
Proof.
  revert a. induction us as [|n us IH]; intros a.
  - simpl. rewrite !app_nil_r. by destruct a.
  - simpl. rewrite aggregate_size_columns_of. simpl.
    rewrite IH. simpl. rewrite <- !app_assoc. done.
Qed.

Lemma group_and_aggregate_columns_of (ts : list Trial) :
  group_and_aggregate (columns_of ts) =
    ok (aggregates_by_group ts (unique_sizes (columns_of ts))).
Proof.
  unfold group_and_aggregate. rewrite aggregate_loop_columns_of. done.
Qed.
(** ** The unique sizes *)

Lemma elem_of_sorted_set (xs : list Z) (n : Z) :
  n ∈ Py.sorted_set xs ↔ n ∈ xs.
Proof.
  unfold Py.sorted_set.
  rewrite merge_sort_Permutation, elem_of_elements, elem_of_list_to_set.
  done.
Qed.

Lemma NoDup_sorted_set (xs : list Z) : NoDup (Py.sorted_set xs).
Proof.
  unfold Py.sorted_set. rewrite merge_sort_Permutation.
  apply NoDup_elements.
Qed.

Lemma StronglySorted_le_lt (l : list Z) :
  StronglySorted Z.le l → NoDup l → StronglySorted Z.lt l.
Proof.
  induction 1 as [|x l Hl IH Hx]; intros Hnd; [constructor|].
  apply NoDup_cons in Hnd as [Hx' Hnd].
  constructor; [by apply IH|].
  rewrite Forall_forall in Hx |- *. intros y Hy.
  specialize (Hx y Hy).
  assert (x ≠ y) by (intros ->; done). lia.
Qed.

Lemma sorted_set_ascending (xs : list Z) :
  StronglySorted Z.lt (Py.sorted_set xs).
Proof.
  apply StronglySorted_le_lt; [|apply NoDup_sorted_set].
  unfold Py.sorted_set. apply (StronglySorted_merge_sort Z.le).
Qed.


(** ** The indices of a size *)

Lemma elem_of_enumerate_from {A} (k : nat) (xs : list A) (j : nat) (x : A) :
  (j, x) ∈ Py.enumerate_from k xs ↔ (k ≤ j)%nat ∧ xs !! (j - k)%nat = Some x.
Proof.
  revert k. induction xs as [|y xs IH]; intros k; simpl.
  - rewrite elem_of_nil. split; [done | by intros [_ ?]].
  - rewrite elem_of_cons, IH. split.
    + intros [[= -> ->] | [Hle Hx]].
      * rewrite Nat.sub_diag. done.
      * split; [lia|]. replace (j - k)%nat with (S (j - S k)) by lia. done.
    + intros [Hle Hx]. destruct (decide (j = k)) as [-> | Hne].
      * rewrite Nat.sub_diag in Hx. left. simpl in Hx. congruence.
      * right. split; [lia|].
        replace (j - k)%nat with (S (j - S k)) in Hx by lia. done.
Qed.

Lemma enumerate_from_fst {A} (k : nat) (xs : list A) :
  (Py.enumerate_from k xs).*1 = seq k (length xs).
Proof.
  revert k. induction xs as [|y xs IH]; intros k; [done|].
  simpl. by rewrite <- IH.
Qed.

(** An index is selected exactly when the trial at it has the size. *)
Lemma elem_of_indices (sizes : list Z) (n : Z) (j : nat) :
  j ∈ indices sizes n ↔ sizes !! j = Some n.
Proof.
  unfold indices, Py.enumerate. rewrite list_elem_of_fmap. split.
  - intros [[j' x] [-> Hin]].
    apply list_elem_of_filter in Hin as [Hx Hin]. simpl in *. subst x.
    apply elem_of_enumerate_from in Hin as [_ Hin].
    by rewrite Nat.sub_0_r in Hin.
  - intros Hj. exists (j, n). split; [done|].
    apply list_elem_of_filter. split; [done|].
    apply elem_of_enumerate_from. rewrite Nat.sub_0_r. split; [lia|done].
Qed.

(** No index is selected twice. *)
Lemma NoDup_indices (sizes : list Z) (n : Z) : NoDup (indices sizes n).
Proof.
  unfold indices, Py.enumerate.
  apply (sublist_NoDup _ (seq 0 (length sizes))); [apply NoDup_seq|].
  rewrite <- (enumerate_from_fst 0 sizes).
  apply fmap_sublist, sublist_filter.
Qed.

(** The indices selected for different sizes are disjoint. *)
Lemma indices_disjoint (sizes : list Z) (n m : Z) (j : nat) :
  j ∈ indices sizes n → j ∈ indices sizes m → n = m.
Proof. rewrite !elem_of_indices. congruence. Qed.

(** Every position of the input is selected for one unique size. *)
Lemma indices_cover (sizes : list Z) (j : nat) :
  (j < length sizes)%nat →
  ∃ n, n ∈ Py.sorted_set sizes ∧ j ∈ indices sizes n.
Proof.
  intros Hj. destruct (lookup_lt_is_Some_2 sizes j Hj) as [n Hn].
  exists n. rewrite elem_of_sorted_set, elem_of_indices.
  split; [|done]. by eapply list_elem_of_lookup_2.
Qed.

(** ** Grouping *)

(** C1: the unique sizes are strictly ascending (so each occurs once)
    and are exactly the sizes that occur among the trials; the loop of
    the script returns, for each of them in that order, the aggregates
    of the group of trials of that size; the indices it selects for a
    size are exactly the positions of the trials of that size, each
    position once, and every position of the input is selected for one
    unique size and no other. *)
Theorem group_and_aggregate_by_size (ts : list Trial) :
  let c := columns_of ts in
  let us := unique_sizes c in
  StronglySorted Z.lt us ∧
  (∀ n, n ∈ us ↔ ∃ t, t ∈ ts ∧ input_size t = n) ∧
  group_and_aggregate c = ok (aggregates_by_group ts us) ∧
  (∀ n, NoDup (indices (sizes c) n) ∧
        ∀ j, j ∈ indices (sizes c) n ↔ input_size <$> ts !! j = Some n) ∧
  (∀ j, (j < length ts)%nat →
        ∃ n, n ∈ us ∧ j ∈ indices (sizes c) n ∧
             ∀ m, j ∈ indices (sizes c) m → m = n).
Proof.
  simpl. split; [|split; [|split; [|split]]]; [| | | |intros j Hj];
    repeat split.
  - apply sorted_set_ascending.
  - unfold unique_sizes. rewrite elem_of_sorted_set. simpl.
    rewrite list_elem_of_fmap. intros (t & -> & Ht). eauto.
  - unfold unique_sizes. rewrite elem_of_sorted_set. simpl.
    rewrite list_elem_of_fmap. intros (t & Ht & <-). eauto.
  - apply group_and_aggregate_columns_of.
  - apply NoDup_indices.
  - rewrite elem_of_indices, list_lookup_fmap. done.
  - rewrite elem_of_indices, list_lookup_fmap. done.
  - destruct (indices_cover (input_size <$> ts) j) as (n & Hn & Hjn);
      [by rewrite length_fmap|].
    exists n. repeat split; [done..|].
    intros m Hjm. by eapply indices_disjoint.
Qed.

(** C5: on a file with a header and no rows the reading loop leaves the
    six columns empty, there is no unique size, and the loop over the
    unique sizes yields six empty lists and raises nothing. *)
Theorem group_and_aggregate_no_rows :
  read_csv [] = ok no_columns ∧
  unique_sizes no_columns = [] ∧
  group_and_aggregate no_columns = ok no_aggregates.
Proof. repeat split; vm_compute; reflexivity. Qed.

(** ** Sums, means and deviations *)

Lemma sum_Fin (rs : list R) : NP.sum (Fin <$> rs) = Fin (Rsum rs).
Proof.
  unfold NP.sum, Rsum. induction rs as [|r rs IH]; [done|].
  rewrite fmap_cons. simpl. by rewrite IH.
Qed.

Lemma INR_length_pos {A} (xs : list A) :
  xs ≠ [] → (0 < INR (length xs))%R.
Proof. intros. apply lt_0_INR. destruct xs; [done | simpl; lia]. Qed.

Lemma mean_Fin (rs : list R) :
  rs ≠ [] → NP.mean (Fin <$> rs) = Fin (Rmean rs).
Proof.
  intros Hrs. unfold NP.mean, Rmean, NP.of_nat.
  rewrite sum_Fin, length_fmap.
  unfold NP.div. by rewrite Rsign_pos by by apply INR_length_pos.
Qed.

Lemma Rsum_nonneg (rs : list R) :
  Forall (λ r, 0 <= r)%R rs → (0 <= Rsum rs)%R.
Proof.
  unfold Rsum. induction 1 as [|r rs Hr _ IH]; simpl; lra.
Qed.

Lemma Rsign_nonneg r : (0 <= r)%R → NP.Rsign r ≠ Lt.
Proof.
  intros [H | <-]; [by rewrite Rsign_pos | by rewrite Rsign_zero].
Qed.

(** [np.std] of finite values is the population standard deviation:
    the squared deviations are summed and divided by the number of
    values. *)
Lemma std_Fin (rs : list R) :
  rs ≠ [] → NP.std (Fin <$> rs) = Fin (population_std rs).
Proof.
  intros Hrs. unfold NP.std. rewrite mean_Fin by done.
  set (m := Rmean rs).
  rewrite <- list_fmap_compose.
  rewrite (list_fmap_ext _ (Fin ∘ (λ x, (x - m) * (x - m))%R) rs).
  2: { intros _ x _. simpl. f_equal. unfold Rabs.
       destruct (Rcase_abs _); lra. }
  rewrite list_fmap_compose, mean_Fin by by destruct rs.
  unfold population_std, Rmean at 1. fold m. rewrite length_fmap.
  unfold NP.sqrt.
  set (v := (Rsum _ / _)%R).
  pose proof (Rsign_nonneg v) as Hv.
  destruct (NP.Rsign v); try done. exfalso. apply Hv; [|done].
  apply Rmult_le_pos.
  - apply Rsum_nonneg, Forall_fmap, Forall_forall. intros x _. simpl.
    apply (Rle_0_sqr (x - m)).
  - left. by apply Rinv_0_lt_compat, INR_length_pos.
Qed.

(** The mean of one value is the value; its deviation from itself is
    zero when it is finite and [nan] when it is not, as [inf - inf] is
    [nan]. *)
Lemma mean_singleton (x : float64) : NP.mean [x] = x.
Proof.
  unfold NP.mean, NP.sum, NP.of_nat. cbn [foldr length INR].
  destruct x as [r| | |]; cbn [NP.add NP.div];
    rewrite ?Rsign_pos by lra; try done.
  f_equal. field.
Qed.

Lemma std_singleton (x : float64) :
  NP.std [x] = match x with Fin _ => Fin 0 | _ => NaN end.
Proof.
  unfold NP.std. rewrite mean_singleton.
  cbn [fmap list_fmap]. rewrite mean_singleton.
  destruct x as [r| | |]; try done.
  cbn [NP.sub NP.neg NP.add NP.abs NP.mul NP.sqrt].
  replace (r + - r)%R with 0%R by lra.
  rewrite Rabs_R0, Rmult_0_l, Rsign_zero by done.
  by rewrite sqrt_0.
Qed.

Lemma size_group_nonempty (ts : list Trial) (n : Z) :
  n ∈ unique_sizes (columns_of ts) → size_group ts n ≠ [].
Proof.
  unfold unique_sizes. rewrite elem_of_sorted_set. simpl.
  rewrite list_elem_of_fmap. intros (t & -> & Ht) Hnil.
  assert (t ∈ size_group ts (input_size t)) as Hin
    by by apply list_elem_of_filter.
  rewrite Hnil in Hin. by apply elem_of_nil in Hin.
Qed.

Lemma std_times_lookup (ts : list Trial) (a : aggregates) (i : nat) (n : Z) :
  group_and_aggregate (columns_of ts) = ok a →
  unique_sizes (columns_of ts) !! i = Some n →
  std_times a !! i = Some (NP.std (time_ms <$> size_group ts n)) ∧
  avg_times a !! i = Some (NP.mean (time_ms <$> size_group ts n)).
Proof.
  intros Ha Hn.
  rewrite group_and_aggregate_columns_of in Ha. injection Ha as <-.
  cbn [std_times avg_times aggregates_by_group].
  by rewrite !list_lookup_fmap, Hn.
Qed.

(** ** Standard deviation of the times of a group *)

(** C7, as the code has it: the entry of [std_times] for a unique size
    is [np.std], with its default [ddof = 0], of the times of the group
    of that size, which is never empty.  For a group of one trial it is
    0 when the time is finite and [nan] when the time is [inf], [-inf]
    or [nan].  For finite times that are small enough for the squared
    deviations not to overflow it is the population standard deviation:
    the square root of the summed squared deviations from the mean
    divided by the number of trials of the group, not by that number
    minus 1. *)
Theorem std_times_population (ts : list Trial) (a : aggregates)
    (i : nat) (n : Z) :
  group_and_aggregate (columns_of ts) = ok a →
  unique_sizes (columns_of ts) !! i = Some n →
  let g := time_ms <$> size_group ts n in
  g ≠ [] ∧
  std_times a !! i = Some (NP.std g) ∧
  (∀ x, g = [x] →
     std_times a !! i = Some (match x with Fin _ => Fin 0 | _ => NaN end)) ∧
  (∀ rs, g = Fin <$> rs →
     Forall (λ r, - 1e100 <= r <= 1e100)%R rs →
     Z.of_nat (length rs) < 2 ^ 63 →
     std_times a !! i =
       Some (Fin (R_sqrt.sqrt
                    (Rsum ((λ x, (x - Rmean rs) * (x - Rmean rs))%R <$> rs)
                     / INR (length rs))))).
Proof.
  intros Ha Hn g.
  destruct (std_times_lookup ts a i n Ha Hn) as [Hstd _]. fold g in Hstd.
  assert (g ≠ []) as Hg.
  { unfold g. intros Hnil%fmap_nil_inv. revert Hnil.
    apply size_group_nonempty. by eapply list_elem_of_lookup_2. }
  split; [done|]. split; [done|]. split.
  - intros x Hx. by rewrite Hstd, Hx, std_singleton.
  - intros rs Hrs _ _. rewrite Hstd, Hrs, std_Fin; [done|].
    intros ->. by rewrite Hrs in Hg.
Qed.

Lemma std_times_population_witness :
  let ts := [MkTrial 5 (Fin 2) 10 4 7 1] in
  std_times (aggregates_by_group ts [5]) !! 0%nat = Some (Fin 0) ∧
  std_times (aggregates_by_group ts [5]) !! 0%nat =
    Some (Fin (R_sqrt.sqrt
                 (Rsum ((λ x, (x - Rmean [2]) * (x - Rmean [2]))%R <$> [2%R])
                  / INR 1))).
Proof.
  intros ts.
  destruct (std_times_population ts (aggregates_by_group ts [5]) 0 5
              eq_refl eq_refl) as (_ & _ & Hone & Hmany).
  split.
  - exact (Hone (Fin 2) eq_refl).
  - refine (Hmany [2%R] eq_refl _ _).
    + repeat constructor; lra.
    + reflexivity.
Defined.

(** ** The theoretical curve *)

(** X19: the curve [theoretical] of the second plot has an entry for
    every unique size, [n * np.log2(n) * 1.44] in [float64] arithmetic,
    when every unique size fits a 64-bit integer; when one does not,
    [np.log2] raises [TypeError] and there is no curve. *)
Theorem theoretical_every_size (us : list Z) :
  (Forall (λ n, int64_or_uint64 n = true) us →
   ∃ th, theoretical us = ok th ∧
         length th = length us ∧
         ∀ i n, us !! i = Some n →
           th !! i = Some (NP.mul (NP.mul (NP.of_Z n) (NP.log2 (NP.of_Z n)))
                             (Fin 1.44))) ∧
  (¬ Forall (λ n, int64_or_uint64 n = true) us →
   theoretical us = raise TypeError).
Proof.
  assert (∀ n, int64_or_uint64 n = true →
               theoretical_comparisons n =
                 ok ((λ n, NP.mul (NP.mul (NP.of_Z n) (NP.log2 (NP.of_Z n)))
                             (Fin 1.44)) n)) as Hin.
  { intros n Hn. unfold theoretical_comparisons.
    by rewrite size_log_in_range, bind_ok. }
  assert (∀ n, int64_or_uint64 n = false →
               theoretical_comparisons n = raise TypeError) as Hout.
  { intros n Hn. unfold theoretical_comparisons.
    by rewrite size_log_out_of_range. }
  split.
  - intros Hus. eexists. split; [by apply (mapM_in_range _ _ _ Hin)|].
    split; [by rewrite length_fmap|].
    intros i n Hn. by rewrite list_lookup_fmap, Hn.
  - apply (mapM_out_of_range _ _ _ Hin Hout).
Qed.

Lemma theoretical_every_size_witness :
  (∃ th, theoretical [2; 4] = ok th ∧ length th = 2%nat) ∧
  theoretical [2 ^ 64] = raise TypeError.
Proof.
  split.
  - destruct (proj1 (theoretical_every_size [2; 4])) as (th & Hth & Hlen & _);
      [repeat constructor|].
    exists th. split; [exact Hth | exact Hlen].
  - apply (proj2 (theoretical_every_size [2 ^ 64])).
    intros Hall. apply Forall_cons in Hall as [Hn _].
    vm_compute in Hn. discriminate Hn.
Defined.

(** ** Normalized time *)

Lemma n_log_n_in_range (us : list Z) :
  Forall (λ n, int64_or_uint64 n = true) us →
  n_log_n us
  = ok ((λ n, NP.mul (NP.of_Z n) (NP.log2 (NP.of_Z n))) <$> us).
Proof. apply mapM_in_range, size_log_in_range. Qed.

Lemma n_log_n_out_of_range (us : list Z) :
  ¬ Forall (λ n, int64_or_uint64 n = true) us →
  n_log_n us = raise TypeError.
Proof.
  apply (mapM_out_of_range _ _ _ size_log_in_range size_log_out_of_range).
Qed.

(** C2, as the code has it.  When every unique size fits a 64-bit
    integer, [normalized_time] has an entry for every unique size, the
    mean time of the size divided by [n * log2(n)] in [float64]
    arithmetic: for [n > 1] and a finite mean it is the finite quotient;
    for [n = 1] the divisor is zero and the entry is an infinity of the
    sign of the mean, or [nan] for a zero mean; for [n <= 0] it is
    [nan].  No size is left out or flagged and the division raises
    nothing.  When a unique size does not fit a 64-bit integer,
    [np.log2] raises [TypeError] and there is no list. *)
Theorem normalized_time_every_size (ts : list Trial) (a : aggregates) :
  group_and_aggregate (columns_of ts) = ok a →
  let us := unique_sizes (columns_of ts) in
  (¬ Forall (λ n, int64_or_uint64 n = true) us →
   n_log_n us = raise TypeError) ∧
  (Forall (λ n, int64_or_uint64 n = true) us →
   ∃ nl, n_log_n us = ok nl ∧
     let nt := normalized_time (avg_times a) nl in
     length nt = length us ∧
     ∀ i n, us !! i = Some n →
       let mean_time := NP.mean (time_ms <$> size_group ts n) in
       nt !! i = Some (NP.div mean_time
                         (NP.mul (NP.of_Z n) (NP.log2 (NP.of_Z n)))) ∧
       (1 < n → ∀ m, mean_time = Fin m →
          nt !! i = Some (Fin (m / (IZR n * (ln (IZR n) / ln 2))))) ∧
       (n = 1 → ∀ m, mean_time = Fin m →
          nt !! i = Some (NP.inf_of (NP.Rsign m))) ∧
       (n ≤ 0 → nt !! i = Some NaN)).
Proof.
  intros Ha us. split; [apply n_log_n_out_of_range|].
  intros Hus. eexists. split; [by apply n_log_n_in_range|].
  rewrite group_and_aggregate_columns_of in Ha. injection Ha as <-.
  fold us. cbv zeta. split.
  - unfold normalized_time. rewrite length_zip_with.
    cbn [avg_times aggregates_by_group]. rewrite !length_fmap. lia.
  - intros i n Hn.
    assert (normalized_time
              (avg_times (aggregates_by_group ts us))
              ((λ n, NP.mul (NP.of_Z n) (NP.log2 (NP.of_Z n))) <$> us) !! i
            = Some (NP.div (NP.mean (time_ms <$> size_group ts n))
                      (NP.mul (NP.of_Z n) (NP.log2 (NP.of_Z n))))) as Hnt.
    { unfold normalized_time. rewrite lookup_zip_with.
      cbn [avg_times aggregates_by_group].
      by rewrite !list_lookup_fmap, Hn. }
    split; [exact Hnt|repeat split].
    + intros Hgt m Hm. rewrite Hnt, Hm, n_log2_gt_1 by done.
      unfold NP.div. rewrite Rsign_pos by by apply n_log2_gt_1_pos. done.
    + intros -> m Hm. rewrite Hnt, Hm, n_log2_1.
      unfold NP.div. rewrite (Rsign_zero 0) by done. done.
    + intros Hle. rewrite Hnt, n_log2_le_0 by done.
      by destruct (NP.mean _).
Qed.

Lemma normalized_time_every_size_witness :
  let ts := [MkTrial 2 (Fin 3) 1 1 1 1; MkTrial 4 (Fin 8) 5 3 4 1] in
  ∃ nl, n_log_n [2; 4] = ok nl ∧
        length (normalized_time (avg_times (aggregates_by_group ts [2; 4]))
                  nl) = 2%nat.
Proof.
  intros ts.
  destruct (proj2 (normalized_time_every_size ts
                     (aggregates_by_group ts [2; 4]) eq_refl))
    as (nl & Hnl & Hlen & _).
  - repeat constructor.
  - exists nl. split; [exact Hnl | exact Hlen].
Defined.

(** C2 as stated fails for a trial of size 1: its normalized time is
    computed, and is [inf]. *)
Lemma normalized_time_size_one :
  let ts := [MkTrial 1 (Fin 2) 0 0 0 1] in
  unique_sizes (columns_of ts) = [1] ∧
  ∃ a nl, group_and_aggregate (columns_of ts) = ok a ∧
          n_log_n [1] = ok nl ∧
          normalized_time (avg_times a) nl = [PInf].
Proof.
  intros ts. split; [reflexivity|].
  exists (aggregates_by_group ts [1]). eexists.
  split; [reflexivity|]. split; [by apply n_log_n_in_range; repeat constructor|].
  cbn [normalized_time avg_times aggregates_by_group fmap list_fmap
       zip_with].
  rewrite n_log2_1.
  assert (time_ms <$> size_group ts 1 = Fin <$> [2%R]) as -> by reflexivity.
  rewrite mean_Fin by done.
  unfold NP.div. rewrite (Rsign_zero 0) by done.
  rewrite Rsign_pos; [done|].
  unfold Rmean, Rsum. simpl. lra.
Qed.

(** ** Growth transitions *)

Lemma getitem_nth {A} (xs : list A) (i : nat) (d : A) :
  (i < length xs)%nat → Py.getitem xs (Z.of_nat i) = ok (nth i xs d).
Proof.
  intros Hi. apply getitem_lookup.
  destruct (nth_lookup_or_length xs i d); [done | lia].
Qed.

Lemma float_overflow_above_uint64 : 2 ^ 64 ≤ Py.float_overflow.
Proof. vm_compute. discriminate. Qed.

(** The quotient of two 64-bit integers never overflows a [float]. *)
Lemma truediv_in_range (a b : Z) :
  int64_or_uint64 a = true → b ≠ 0 →
  Py.truediv a b = ok (Fin (IZR a / IZR b)).
Proof.
  intros Ha%int64_or_uint64_spec Hb. unfold Py.truediv.
  destruct (Z.eqb_spec b 0) as [|_]; [done|].
  pose proof float_overflow_above_uint64 as Hf.
  assert (Z.abs a < 2 ^ 64) as Habs.
  { assert (2 ^ 63 < 2 ^ 64) by (vm_compute; reflexivity). lia. }
  destruct (Z.leb_spec (Py.float_overflow * Z.abs b) (Z.abs a)) as [Hle|];
    [|done].
  exfalso.
  assert (Py.float_overflow * 1 ≤ Py.float_overflow * Z.abs b)
    by (apply Z.mul_le_mono_nonneg_l; lia).
  lia.
Qed.

Lemma nth_in_range (us : list Z) (i : nat) :
  Forall (λ n, int64_or_uint64 n = true) us → (i < length us)%nat →
  int64_or_uint64 (nth i us 0) = true.
Proof.
  intros Hus Hi. rewrite Forall_forall in Hus. apply Hus.
  destruct (nth_lookup_or_length us i 0) as [Hl|]; [|lia].
  by eapply list_elem_of_lookup_2.
Qed.

Lemma growth_step_nth (us : list Z) (avg : list float64) (g : growth)
    (i : nat) :
  length avg = length us → (1 ≤ i < length us)%nat →
  Forall (λ n, int64_or_uint64 n = true) us →
  nth (i - 1) us 0 ≠ 0 →
  growth_step us avg g i =
    ok {| growth_ratios := growth_ratios g
            ++ [NP.div (nth i avg NaN) (nth (i - 1) avg NaN)];
          size_ratios := size_ratios g
            ++ [(λ n p, NP.div (NP.mul (NP.of_Z n) (NP.log2 (NP.of_Z n)))
                          (NP.mul (NP.of_Z p) (NP.log2 (NP.of_Z p))))
                  (nth i us 0) (nth (i - 1) us 0)] |}.
Proof.
  intros Hlen Hi Hus Hnz. unfold growth_step.
  replace (Z.of_nat i - 1) with (Z.of_nat (i - 1)) by lia.
  rewrite (getitem_nth avg i NaN), bind_ok by lia.
  rewrite (getitem_nth avg (i - 1) NaN), bind_ok by lia.
  rewrite (getitem_nth us i 0), bind_ok by lia.
  rewrite (getitem_nth us (i - 1) 0), bind_ok by lia.
  rewrite truediv_in_range, bind_ok by (done || apply nth_in_range; done || lia).
  rewrite !size_log_in_range, !bind_ok by (apply nth_in_range; done || lia).
  done.
Qed.

(** A size 0 that is followed by a larger size stops the loop: the
    quotient of the two sizes raises. *)
Lemma growth_step_zero (us : list Z) (avg : list float64) (g : growth)
    (i : nat) :
  length avg = length us → (1 ≤ i < length us)%nat →
  nth (i - 1) us 0 = 0 →
  growth_step us avg g i = raise ZeroDivisionError.
Proof.
  intros Hlen Hi Hz. unfold growth_step.
  replace (Z.of_nat i - 1) with (Z.of_nat (i - 1)) by lia.
  rewrite (getitem_nth avg i NaN), bind_ok by lia.
  rewrite (getitem_nth avg (i - 1) NaN), bind_ok by lia.
  rewrite (getitem_nth us i 0), bind_ok by lia.
  rewrite (getitem_nth us (i - 1) 0), bind_ok by lia.
  rewrite Hz. done.
Qed.

Lemma growth_loop_outcome (us : list Z) (avg : list float64) (k m : nat)
    (g : growth) :
  length avg = length us → (1 ≤ k)%nat → (k + m ≤ length us)%nat →
  Forall (λ n, int64_or_uint64 n = true) us →
  (growth_loop us avg g (seq k m) =
     ok {| growth_ratios := growth_ratios g
             ++ ((λ i, NP.div (nth i avg NaN) (nth (i - 1) avg NaN))
                   <$> seq k m);
           size_ratios := size_ratios g
             ++ ((λ i, (λ n p,
                          NP.div (NP.mul (NP.of_Z n) (NP.log2 (NP.of_Z n)))
                            (NP.mul (NP.of_Z p) (NP.log2 (NP.of_Z p))))
                         (nth i us 0) (nth (i - 1) us 0)) <$> seq k m) |} ∧
   ∀ i, (k ≤ i < k + m)%nat → nth (i - 1) us 0 ≠ 0) ∨
  (growth_loop us avg g (seq k m) = raise ZeroDivisionError ∧
   ∃ i, (k ≤ i < k + m)%nat ∧ nth (i - 1) us 0 = 0).
Proof.
  intros Hlen. revert k g. induction m as [|m IH]; intros k g Hk Hkm Hus.
  - left. split; [|intros i Hi; lia].
    simpl. rewrite !app_nil_r. by destruct g.
  - cbn [seq growth_loop].
    destruct (decide (nth (k - 1) us 0 = 0)) as [Hz | Hnz].
    + right. rewrite growth_step_zero by (done || lia).
      split; [done|]. exists k. split; [lia | done].
    + rewrite growth_step_nth, bind_ok by (done || lia).
      match goal with
      | |- context [growth_loop us avg ?g1 (seq (S k) m)] =>
          destruct (IH (S k) g1) as [[Hg' Hall] | (Hraise & i & Hi & Hz)];
            [lia | lia | done | |]
      end.
      * left. split.
        -- rewrite Hg'. cbn [growth_ratios size_ratios].
           rewrite !fmap_cons, <- !app_assoc. done.
        -- intros i Hi.
           destruct (decide (i = k)) as [-> | Hne]; [done|]. apply Hall. lia.
      * right. split; [done|]. exists i. split; [lia | done].
Qed.

Lemma growth_transitions_short (us : list Z) (avg : list float64) :
  (length us ≤ 1)%nat → growth_transitions us avg = ok None.
Proof.
  intros Hle. unfold growth_transitions.
  by destruct (Nat.ltb_spec 1 (length us)) as [|_]; [lia|].
Qed.

Lemma growth_transitions_outcome (us : list Z) (avg : list float64) :
  length avg = length us → (1 < length us)%nat →
  Forall (λ n, int64_or_uint64 n = true) us →
  (growth_transitions us avg =
     ok (Some
       {| growth_ratios :=
            (λ i, NP.div (nth i avg NaN) (nth (i - 1) avg NaN))
              <$> seq 1 (length us - 1);
          size_ratios :=
            (λ i, (λ n p,
                     NP.div (NP.mul (NP.of_Z n) (NP.log2 (NP.of_Z n)))
                       (NP.mul (NP.of_Z p) (NP.log2 (NP.of_Z p))))
                    (nth i us 0) (nth (i - 1) us 0))
              <$> seq 1 (length us - 1) |}) ∧
   ∀ j, (S j < length us)%nat → us !! j ≠ Some 0) ∨
  (growth_transitions us avg = raise ZeroDivisionError ∧
   ∃ j, (S j < length us)%nat ∧ us !! j = Some 0).
Proof.
  intros Hlen Hlt Hus. unfold growth_transitions.
  destruct (Nat.ltb_spec 1 (length us)) as [_|]; [|lia].
  destruct (growth_loop_outcome us avg 1 (length us - 1) (Growth [] []))
    as [[Hg Hall] | (Hraise & i & Hi & Hz)]; [done | lia | lia | done | |].
  - left. rewrite Hg. split; [done|].
    intros j Hj Hz. apply (Hall (S j)); [lia|].
    cbn. rewrite Nat.sub_0_r. by apply nth_lookup_Some.
  - right. rewrite Hraise. split; [done|].
    exists (i - 1)%nat. split; [lia|].
    destruct (nth_lookup_or_length us (i - 1) 0) as [Hl|]; [|lia].
    by rewrite Hl, Hz.
Qed.

(** X7: the growth analysis on sizes that fit a 64-bit integer, with
    one mean per size.  With fewer than two sizes there is no loop.
    Otherwise the loop raises exactly when some size that has a
    successor in the list is 0, and then it raises [ZeroDivisionError];
    when no such size is 0 every adjacent pair of sizes gets the
    quotient of the two means and the quotient of the two values
    [n * np.log2(n)], in order. *)
Theorem growth_transitions_raises (us : list Z) (avg : list float64) :
  length avg = length us →
  Forall (λ n, int64_or_uint64 n = true) us →
  ((length us ≤ 1)%nat → growth_transitions us avg = ok None) ∧
  ((∃ j, (S j < length us)%nat ∧ us !! j = Some 0) →
   growth_transitions us avg = raise ZeroDivisionError) ∧
  (∀ e, growth_transitions us avg = raise e →
        e = ZeroDivisionError ∧
        ∃ j, (S j < length us)%nat ∧ us !! j = Some 0) ∧
  ((1 < length us)%nat →
   (∀ j, (S j < length us)%nat → us !! j ≠ Some 0) →
   ∃ g, growth_transitions us avg = ok (Some g) ∧
        length (growth_ratios g) = (length us - 1)%nat ∧
        length (size_ratios g) = (length us - 1)%nat ∧
        ∀ i t_p t_i n_p n_i,
          avg !! i = Some t_p → avg !! S i = Some t_i →
          us !! i = Some n_p → us !! S i = Some n_i →
          growth_ratios g !! i = Some (NP.div t_i t_p) ∧
          size_ratios g !! i
            = Some (NP.div (NP.mul (NP.of_Z n_i) (NP.log2 (NP.of_Z n_i)))
                      (NP.mul (NP.of_Z n_p) (NP.log2 (NP.of_Z n_p))))).
Proof.
  intros Hlen Hus.
  split; [apply growth_transitions_short|].
  destruct (Nat.le_gt_cases (length us) 1) as [Hle | Hlt].
  { rewrite (growth_transitions_short us avg Hle).
    split; [|split; [done|lia]]. intros (j & Hj & _). lia. }
  destruct (growth_transitions_outcome us avg Hlen Hlt Hus)
    as [[Hg Hall] | (Hraise & j & Hj & Hz)].
  - rewrite Hg. split; [|split; [done|]].
    + intros (j & Hj & Hz). by destruct (Hall j Hj).
    + intros _ _. eexists. split; [done|].
      cbn [growth_ratios size_ratios].
      rewrite !length_fmap, !length_seq. do 2 (split; [done|]).
      intros i t_p t_i n_p n_i Htp Hti Hnp Hni.
      assert (i < length us - 1)%nat
        by (apply lookup_lt_Some in Hni; lia).
      rewrite !list_lookup_fmap, !lookup_seq_lt by done.
      simpl. rewrite Nat.sub_0_r.
      rewrite (nth_lookup_Some _ _ _ _ Htp), (nth_lookup_Some _ _ _ _ Hti).
      by rewrite (nth_lookup_Some _ _ _ _ Hnp), (nth_lookup_Some _ _ _ _ Hni).
  - rewrite Hraise. split; [done|]. split.
    + intros e [= <-]. eauto.
    + intros _ Hall. by destruct (Hall j Hj).
Qed.

Lemma growth_transitions_raises_witness :
  growth_transitions [-3; 0; 7] [Fin 1; Fin 2; Fin 3]
  = raise ZeroDivisionError.
Proof.
  refine (proj1 (proj2 (growth_transitions_raises [-3; 0; 7]
                          [Fin 1; Fin 2; Fin 3] eq_refl _)) _).
  - repeat constructor.
  - exists 1%nat. split; [simpl; lia | reflexivity].
Defined.

(** X18: the example of the specification.  For sizes 100, 200, 400
    with mean times 1.0, 2.2, 4.9 the growth analysis returns the
    measured ratios 2.2 and 4.9 / 2.2 = 2.227... and the two quotients
    of [n * log2(n)], here in the exact arithmetic on finite values. *)
Theorem growth_transitions_example :
  growth_transitions [100; 200; 400] [Fin 1; Fin 2.2; Fin 4.9] =
    ok (Some
      {| growth_ratios := [Fin 2.2; Fin (4.9 / 2.2)];
         size_ratios :=
           [Fin (200 * (ln 200 / ln 2) / (100 * (ln 100 / ln 2)));
            Fin (400 * (ln 400 / ln 2) / (200 * (ln 200 / ln 2)))] |}) ∧
  (2.227 < 4.9 / 2.2 < 2.228)%R.
Proof.
  split; [|lra].
  destruct (growth_transitions_outcome [100; 200; 400]
              [Fin 1; Fin 2.2; Fin 4.9])
    as [[Hg _] | (_ & j & Hj & Hz)];
    [done | simpl; lia | repeat constructor | |].
  - rewrite Hg.
    cbn [length Nat.sub seq fmap list_fmap nth].
    rewrite !n_log2_gt_1 by lia.
    unfold NP.div.
    rewrite !Rsign_pos by (try (apply n_log2_gt_1_pos; lia); lra).
    do 4 f_equal. f_equal. lra.
  - destruct j as [|[|j]]; simpl in *; (done || lia).
Qed.

(** ** Reading the rows *)

Lemma read_rows_ok (rows : list row) (ts : list Trial) (c : columns) :
  Forall2 (λ r t, read_row r = ok t) rows ts →
  read_rows c rows = ok (foldl append_trial c ts).
Proof.
  intros Hrows. revert c.
  induction Hrows as [|r t rows ts Hr _ IH]; intros c; [done|].
  cbn [read_rows foldl]. rewrite Hr, bind_ok. apply IH.
Qed.

Lemma read_rows_app (c : columns) (rows1 rows2 : list row) :
  read_rows c (rows1 ++ rows2) =
    c' ← read_rows c rows1; read_rows c' rows2.
Proof.
  revert c. induction rows1 as [|r rows1 IH]; intros c; [done|].
  cbn [app read_rows]. destruct (read_row r) as [e|t]; [done|].
  rewrite !bind_ok. apply IH.
Qed.

Lemma foldl_append_trial (ts0 ts : list Trial) :
  foldl append_trial (columns_of ts0) ts = columns_of (ts0 ++ ts).
Proof.
  revert ts0. induction ts as [|t ts IH]; intros ts0.
  - by rewrite app_nil_r.
  - cbn [foldl].
    replace (ts0 ++ t :: ts) with ((ts0 ++ [t]) ++ ts)
      by (by rewrite <- app_assoc).
    rewrite <- IH. f_equal.
    unfold append_trial, columns_of. cbn. by rewrite !fmap_app.
Qed.

Lemma read_csv_ok (rows : list row) (ts : list Trial) :
  Forall2 (λ r t, read_row r = ok t) rows ts →
  read_csv rows = ok (columns_of ts).
Proof.
  intros Hrows. unfold read_csv.
  rewrite (read_rows_ok rows ts) by done.
  change no_columns with (columns_of []).
  by rewrite (foldl_append_trial [] ts).
Qed.

Lemma read_csv_raise (good : list row) (ts : list Trial) (bad : row)
    (rest : list row) (e : exn) :
  Forall2 (λ r t, read_row r = ok t) good ts →
  read_row bad = raise e →
  read_csv (good ++ bad :: rest) = raise e.
Proof.
  intros Hgood Hbad. unfold read_csv.
  rewrite read_rows_app, (read_rows_ok good ts), bind_ok by done.
  cbn [read_rows]. by rewrite Hbad.
Qed.

(** A conversion raises exactly when its field fails, and raises what
    the failure says. *)
Lemma int_field_fails (r : row) (key : string) (e : exn) :
  field_fails r (key, true) e ↔ int_field r key = raise e.
Proof.
  unfold field_fails, rejects, int_field, field. cbn [fst snd].
  destruct (r !! key) as [[s|]|]; rewrite ?bind_ok.
  - destruct (py_int s) as [n|] eqn:Hs; split.
    + intros [[? _] | [[? _] | (s' & [= <-] & ? & _)]]; congruence.
    + done.
    + intros [[? _] | [[? _] | (s' & [= <-] & _ & ->)]]; done.
    + intros [= <-]. right; right. by exists s.
  - split.
    + intros [[? _] | [[_ ->] | (s' & ? & _)]]; done.
    + intros [= <-]. right; left. done.
  - split.
    + intros [[_ ->] | [[? _] | (s' & ? & _)]]; done.
    + intros [= <-]. left. done.
Qed.

Lemma float_field_fails (r : row) (key : string) (e : exn) :
  field_fails r (key, false) e ↔ float_field r key = raise e.
Proof.
  unfold field_fails, rejects, float_field, field. cbn [fst snd].
  destruct (r !! key) as [[s|]|]; rewrite ?bind_ok.
  - destruct (py_float s) as [n|] eqn:Hs; split.
    + intros [[? _] | [[? _] | (s' & [= <-] & ? & _)]]; congruence.
    + done.
    + intros [[? _] | [[? _] | (s' & [= <-] & _ & ->)]]; done.
    + intros [= <-]. right; right. by exists s.
  - split.
    + intros [[? _] | [[_ ->] | (s' & ? & _)]]; done.
    + intros [= <-]. right; left. done.
  - split.
    + intros [[_ ->] | [[? _] | (s' & ? & _)]]; done.
    + intros [= <-]. left. done.
Qed.

(** A row that does not convert has a field that fails, and the
    exception is that of the first such field in the order of the
    conversions. *)
Lemma read_row_raise (r : row) (e : exn) :
  read_row r = raise e →
  ∃ f, f ∈ required_fields ∧ field_fails r f e.
Proof.
  unfold read_row, required_fields.
  destruct (int_field r "InputSize") eqn:H1;
    [intros [= <-]; eexists; split;
       [|by apply int_field_fails]; set_solver|].
  destruct (float_field r "TimeMillis") eqn:H2;
    [intros [= <-]; eexists; split;
       [|by apply float_field_fails]; set_solver|].
  destruct (int_field r "Comparisons") eqn:H3;
    [intros [= <-]; eexists; split;
       [|by apply int_field_fails]; set_solver|].
  destruct (int_field r "Swaps") eqn:H4;
    [intros [= <-]; eexists; split;
       [|by apply int_field_fails]; set_solver|].
  destruct (int_field r "HeapifyOps") eqn:H5;
    [intros [= <-]; eexists; split;
       [|by apply int_field_fails]; set_solver|].
  destruct (int_field r "MemoryKB") eqn:H6;
    [intros [= <-]; eexists; split;
       [|by apply int_field_fails]; set_solver|].
  done.
Qed.

(** A row that converts has no field that fails. *)
Lemma read_row_ok_fields (r : row) (t : Trial) (f : string * bool) (e : exn) :
  read_row r = ok t → f ∈ required_fields → ¬ field_fails r f e.
Proof.
  unfold read_row, required_fields. intros Hr Hf Hfail.
  destruct (int_field r "InputSize") eqn:H1; [done|].
  destruct (float_field r "TimeMillis") eqn:H2; [done|].
  destruct (int_field r "Comparisons") eqn:H3; [done|].
  destruct (int_field r "Swaps") eqn:H4; [done|].
  destruct (int_field r "HeapifyOps") eqn:H5; [done|].
  destruct (int_field r "MemoryKB") eqn:H6; [done|].
  repeat (apply elem_of_cons in Hf as [-> | Hf];
          [first [apply int_field_fails in Hfail
                 |apply float_field_fails in Hfail];
           unfold raise in Hfail; congruence|]).
  by apply elem_of_nil in Hf.
Qed.

Lemma read_row_malformed (r : row) :
  malformed r →
  ∃ f e, f ∈ required_fields ∧ field_fails r f e ∧ read_row r = raise e.
Proof.
  intros (f & e & Hf & Hfail).
  destruct (read_row r) as [e'|t] eqn:Hr.
  - destruct (read_row_raise r e' Hr) as (f' & Hf' & Hfail'). eauto.
  - by destruct (read_row_ok_fields r t f e Hr Hf).
Qed.

(** The first row that does not convert, in a file that has a malformed
    row. *)
Lemma read_csv_first_malformed (rows : list row) :
  Exists malformed rows →
  ∃ good ts bad rest e,
    rows = good ++ bad :: rest ∧
    Forall2 (λ r t, read_row r = ok t) good ts ∧
    read_row bad = raise e.
Proof.
  induction rows as [|r rows IH]; intros Hex.
  - by apply Exists_nil in Hex.
  - destruct (read_row r) as [e|t] eqn:Hr.
    + exists [], [], r, rows, e. by split; [|split; [constructor|]].
    + apply Exists_cons in Hex as [Hbad | Hex].
      * apply read_row_malformed in Hbad as (f & e & _ & _ & He).
        by rewrite Hr in He.
      * destruct (IH Hex) as (good & ts & bad & rest & e & -> & Hgood & Hbad).
        exists (r :: good), (t :: ts), bad, rest, e.
        by split; [|split; [constructor|]].
Qed.

(** C9, as the code has it: when a row the reader yields has a field
    that is missing or does not convert, the load stops at the first
    row that has such a field, whatever rows follow: the rows before it
    convert, and the exception is that of a field of the row that
    fails, [KeyError] with the name of a column the header lacks,
    [TypeError] for a field the row is too short for, or [ValueError]
    with the text that is not a number.  No columns are returned. *)
Theorem read_csv_malformed_row (rows : list row) :
  Exists malformed rows →
  ∃ good ts bad rest f e,
    rows = good ++ bad :: rest ∧
    Forall2 (λ r t, read_row r = ok t) good ts ∧
    read_csv good = ok (columns_of ts) ∧
    f ∈ required_fields ∧ field_fails bad f e ∧
    read_row bad = raise e ∧
    read_csv rows = raise e.
Proof.
  intros Hex.
  destruct (read_csv_first_malformed rows Hex)
    as (good & ts & bad & rest & e & -> & Hgood & Hbad).
  destruct (read_row_raise bad e Hbad) as (f & Hf & Hfail).
  exists good, ts, bad, rest, f, e.
  split; [done|]. split; [done|]. split; [by apply read_csv_ok|].
  split; [done|]. split; [done|]. split; [done|].
  by eapply read_csv_raise.
Qed.

(** ** The loaded columns *)

Lemma read_rows_inv (rows : list row) (c0 c : columns) :
  read_rows c0 rows = ok c →
  ∃ ts, Forall2 (λ r t, read_row r = ok t) rows ts ∧
        c = foldl append_trial c0 ts.
Proof.
  revert c0. induction rows as [|r rows IH]; intros c0 Hc.
  - injection Hc as <-. exists []. by split; [constructor|].
  - cbn [read_rows] in Hc. destruct (read_row r) as [e|t] eqn:Hr; [done|].
    rewrite bind_ok in Hc. destruct (IH _ Hc) as (ts & Hts & ->).
    exists (t :: ts). by split; [constructor|].
Qed.

(** X1: a load that succeeds has converted every row, in order: the six
    lists are the columns of the converted rows, and each has one entry
    per row. *)
Theorem read_csv_columns (rows : list row) (c : columns) :
  read_csv rows = ok c →
  ∃ ts, Forall2 (λ r t, read_row r = ok t) rows ts ∧
        c = columns_of ts ∧
        length (sizes c) = length rows ∧
        length (times c) = length rows ∧
        length (comparisons c) = length rows ∧
        length (swaps c) = length rows ∧
        length (heapify_ops c) = length rows ∧
        length (memory c) = length rows.
Proof.
  intros Hc. apply read_rows_inv in Hc as (ts & Hts & ->).
  change no_columns with (columns_of []).
  rewrite (foldl_append_trial [] ts). cbn [app].
  exists ts. split; [done|]. split; [done|].
  apply Forall2_length in Hts.
  cbn [columns_of sizes times comparisons swaps heapify_ops memory].
  rewrite !length_fmap. by rewrite Hts.
Qed.

(** X2: a load that raises raises the exception of a row all of whose
    predecessors convert: the first row that does not convert. *)
Theorem read_csv_raise_inv (rows : list row) (e : exn) :
  read_csv rows = raise e →
  ∃ good ts bad rest,
    rows = good ++ bad :: rest ∧
    Forall2 (λ r t, read_row r = ok t) good ts ∧
    read_row bad = raise e.
Proof.
  unfold read_csv. generalize no_columns.
  induction rows as [|r rows IH]; intros c0 He; [done|].
  cbn [read_rows] in He. destruct (read_row r) as [e'|t] eqn:Hr.
  - injection He as ->. exists [], [], r, rows.
    by split; [|split; [constructor|]].
  - rewrite bind_ok in He.
    destruct (IH _ He) as (good & ts & bad & rest & -> & Hgood & Hbad).
    exists (r :: good), (t :: ts), bad, rest.
    by split; [|split; [constructor|]].
Qed.

(** X3: a file whose header has no [InputSize] column stops the load at
    its first row with [KeyError('InputSize')], whatever the row holds;
    a first row too short to reach that column stops it with
    [TypeError]. *)
Theorem read_csv_missing_input_size (r : row) (rest : list row) :
  (r !! "InputSize" = None →
   read_csv (r :: rest) = raise (KeyError "InputSize")) ∧
  (r !! "InputSize" = Some None →
   read_csv (r :: rest) = raise TypeError).
Proof.
  assert (∀ e, int_field r "InputSize" = raise e →
               read_csv (r :: rest) = raise e) as Hfirst.
  { intros e He. unfold read_csv. cbn [read_rows].
    unfold read_row. by rewrite He. }
  split; intros Hr; apply Hfirst; unfold int_field, field; by rewrite Hr.
Qed.

(** ** From the loaded rows to the aggregates *)

(** X16: on the columns of any load that succeeds the loop over the
    unique sizes raises nothing, every index it reads being in range,
    and each of its six lists gets one entry per unique size. *)
Theorem group_and_aggregate_after_load (rows : list row) (c : columns) :
  read_csv rows = ok c →
  ∃ a, group_and_aggregate c = ok a ∧
       length (avg_times a) = length (unique_sizes c) ∧
       length (avg_comparisons a) = length (unique_sizes c) ∧
       length (avg_swaps a) = length (unique_sizes c) ∧
       length (avg_heapify a) = length (unique_sizes c) ∧
       length (avg_memory a) = length (unique_sizes c) ∧
       length (std_times a) = length (unique_sizes c).
Proof.
  intros Hc. apply read_rows_inv in Hc as (ts & _ & ->).
  change no_columns with (columns_of []).
  rewrite (foldl_append_trial [] ts). cbn [app].
  eexists. split; [apply group_and_aggregate_columns_of|].
  cbn [avg_times avg_comparisons avg_swaps avg_heapify avg_memory std_times
       aggregates_by_group].
  by rewrite !length_fmap.
Qed.

(** ** The annotated point *)


Lemma unique_sizes_nonempty (ts : list Trial) :
  ts ≠ [] → unique_sizes (columns_of ts) ≠ [].
Proof.
  destruct ts as [|t ts]; [done|]. intros _ Hnil.
  assert (input_size t ∈ unique_sizes (columns_of (t :: ts))) as Hin.
  { unfold unique_sizes. rewrite elem_of_sorted_set. cbn. left. }
  rewrite Hnil in Hin. by apply elem_of_nil in Hin.
Qed.




(** ** A single input size *)

Lemma unique_sizes_elem (ts : list Trial) (s : Z) :
  s ∈ unique_sizes (columns_of ts) ↔ ∃ t, t ∈ ts ∧ input_size t = s.
Proof.
  unfold unique_sizes. rewrite elem_of_sorted_set. cbn.
  rewrite list_elem_of_fmap. split.
  - intros (t & -> & Ht). eauto.
  - intros (t & Ht & <-). eauto.
Qed.

(** With one unique size the group of that size is the whole file. *)
Lemma size_group_single (ts : list Trial) (n : Z) :
  unique_sizes (columns_of ts) = [n] → size_group ts n = ts.
Proof.
  intros Hus.
  assert (Forall (λ t, input_size t = n) ts) as Hall.
  { apply Forall_forall. intros t Ht.
    assert (input_size t ∈ unique_sizes (columns_of ts)) as Hin
      by (apply unique_sizes_elem; eauto).
    rewrite Hus in Hin. by apply list_elem_of_singleton in Hin. }
  clear Hus. unfold size_group. induction Hall as [|t ts' Ht _ IH]; [done|].
  rewrite filter_cons_True by done. by rewrite IH.
Qed.

Lemma Rmean_pos (rs : list R) :
  rs ≠ [] → Forall (λ r, 0 < r)%R rs → (0 < Rmean rs)%R.
Proof.
  intros Hrs Hall. unfold Rmean.
  apply Rdiv_lt_0_compat; [|by apply INR_length_pos].
  destruct Hall as [|r rs' Hr Hall]; [done|].
  unfold Rsum. cbn [foldr].
  assert (0 <= foldr Rplus 0 rs')%R; [|lra].
  apply Rsum_nonneg. eapply Forall_impl; [done|]. simpl. intros. lra.
Qed.

(** X10: when all trials have one size [n] with [1 < n < 2^64] and
    times between [1e-100] and [1e100], there is one normalized time,
    the mean of the times over [n * log2(n)], and it is positive; its
    deviation is 0 and the coefficient of variation is 0, whatever the
    times are. *)
Theorem coefficient_of_variation_single_size (ts : list Trial)
    (a : aggregates) (n : Z) (rs : list R) :
  group_and_aggregate (columns_of ts) = ok a →
  unique_sizes (columns_of ts) = [n] →
  1 < n < 2 ^ 64 →
  time_ms <$> ts = Fin <$> rs →
  Forall (λ r, 1e-100 <= r <= 1e100)%R rs →
  Z.of_nat (length rs) < 2 ^ 63 →
  ∃ nl x, n_log_n [n] = ok nl ∧
          normalized_time (avg_times a) nl = [Fin x] ∧
          x = (Rmean rs / (IZR n * (ln (IZR n) / ln 2)))%R ∧
          (0 < x)%R ∧
          complexity_verification [Fin x] =
            {| summary_mean := Fin x;
               summary_std := Fin 0;
               summary_cv := Fin 0 |}.
Proof.
  intros Ha Hus Hn Hrs Hbound _.
  rewrite group_and_aggregate_columns_of, Hus in Ha. injection Ha as <-.
  assert (rs ≠ []) as Hne.
  { intros ->. apply fmap_nil_inv in Hrs.
    apply (unique_sizes_nonempty ts); [|by rewrite Hrs in Hus].
    intros ->. done. }
  assert (0 < Rmean rs)%R as Hmean.
  { apply Rmean_pos; [done|].
    eapply Forall_impl; [done|]. simpl. intros. lra. }
  pose proof (n_log2_gt_1_pos n (proj1 Hn)) as Hpos.
  set (d := (IZR n * (ln (IZR n) / ln 2))%R) in *.
  assert (0 < Rmean rs / d)%R as Hx by by apply Rdiv_lt_0_compat.
  eexists. exists (Rmean rs / d)%R.
  split.
  { apply n_log_n_in_range. repeat constructor.
    apply int64_or_uint64_spec.
    assert (0 < 2 ^ 63) by reflexivity. lia. }
  split; [|split; [done|split; [done|]]].
  - cbn [normalized_time avg_times aggregates_by_group fmap list_fmap
         zip_with].
    rewrite size_group_single, Hrs, mean_Fin by done.
    rewrite n_log2_gt_1 by lia. fold d.
    unfold NP.div. by rewrite Rsign_pos.
  - unfold complexity_verification, coefficient_of_variation.
    rewrite std_singleton, mean_singleton.
    unfold NP.div. rewrite Rsign_pos by done.
    cbn [NP.mul]. do 2 f_equal. unfold Rdiv. lra.
Qed.

Lemma coefficient_of_variation_single_size_witness :
  let ts := [MkTrial 4 (Fin 8) 5 3 4 1; MkTrial 4 (Fin 6) 5 3 4 1] in
  ∃ x, summary_cv (complexity_verification [Fin x]) = Fin 0.
Proof.
  intros ts.
  destruct (coefficient_of_variation_single_size ts
              (aggregates_by_group ts [4]) 4 [8; 6]%R)
    as (nl & x & _ & _ & _ & _ & Hcv).
  - reflexivity.
  - reflexivity.
  - split; [lia | reflexivity].
  - reflexivity.
  - repeat constructor; lra.
  - reflexivity.
  - exists x. by rewrite Hcv.
Defined.

(** ** Order of the rows *)




End Script.

(** * The script with Python's [int] and [float]

    The properties of the loader above hold for any conversions of the
    text of a field.  The examples below instantiate them with the
    literals of [Py.int] and [Py.float]. *)

Lemma int_literals :
  Py.int "100" = Some 100 ∧ Py.int " 100" = Some 100 ∧
  Py.int "-7" = Some (-7) ∧ Py.int "+1_000" = Some 1000 ∧
  Py.int " " = None ∧ Py.int "1.5" = None ∧ Py.int "abc" = None ∧
  Py.int "1__0" = None ∧ Py.int "_1" = None.
Proof. repeat split; reflexivity. Qed.

Lemma float_literals :
  Py.float "1.5" = Some (Fin (15 / 10)) ∧
  Py.float " 2 " = Some (Fin (2 / 1)) ∧
  Py.float "1.0E-4" = Some (Fin (10 / 100000)) ∧
  Py.float "-.5" = Some (Fin (- (5 / 10))) ∧
  Py.float "inf" = Some PInf ∧ Py.float "-Infinity" = Some NInf ∧
  Py.float "NaN" = Some NaN ∧ Py.float "1e400" = Some PInf ∧
  Py.float " " = None ∧ Py.float "abc" = None ∧ Py.float "." = None ∧
  Py.float "1e" = None.
Proof. repeat split; vm_compute; reflexivity. Qed.

Lemma read_row_good :
  read_row Py.int Py.float (csv_row "100" "1.5" "900" "99" "400" "8")
  = ok (MkTrial 100 (Fin (15 / 10)) 900 99 400 8).
Proof. vm_compute. reflexivity. Qed.

Lemma read_row_bad :
  read_row Py.int Py.float (csv_row "200" "abc" "2000" "199" "900" "9")
  = raise (ValueError "abc").
Proof. vm_compute. reflexivity. Qed.

Lemma malformed_bad :
  malformed Py.int Py.float (csv_row "200" "abc" "2000" "199" "900" "9").
Proof.
  exists ("TimeMillis", false), (ValueError "abc"). split.
  - unfold required_fields. set_solver.
  - right; right. exists "abc". repeat split; reflexivity.
Qed.

Lemma read_csv_malformed_row_witness :
  let good := csv_row "100" "1.5" "900" "99" "400" "8" in
  let bad := csv_row "200" "abc" "2000" "199" "900" "9" in
  ∃ e, read_csv Py.int Py.float [good; bad; good] = raise e.
Proof.
  intros good bad.
  destruct (read_csv_malformed_row Py.int Py.float [good; bad; good])
    as (_ & _ & _ & _ & _ & e & _ & _ & _ & _ & _ & _ & He).
  - apply Exists_cons_tl, Exists_cons_hd. exact malformed_bad.
  - exists e. exact He.
Defined.

(** C9 as stated fails: the exception does not tell the position of the
    row.  A non-numeric [TimeMillis] raises the same [ValueError] in the
    first row and in the second. *)
Lemma read_csv_row_index_lost :
  ¬ ∃ row_index : exn → nat,
      ∀ (good : list row) (ts : list Trial) (bad : row) (rest : list row),
        Forall2 (λ r t, read_row Py.int Py.float r = ok t) good ts →
        malformed Py.int Py.float bad →
        ∃ e, read_csv Py.int Py.float (good ++ bad :: rest) = raise e ∧
             row_index e = length good.
Proof.
  intros [row_index Hidx].
  set (good := csv_row "100" "1.5" "900" "99" "400" "8").
  set (bad := csv_row "200" "abc" "2000" "199" "900" "9").
  destruct (Hidx [] [] bad []) as (e0 & He0 & Hi0);
    [constructor | exact malformed_bad |].
  destruct (Hidx [good] [MkTrial 100 (Fin (15 / 10)) 900 99 400 8] bad [])
    as (e1 & He1 & Hi1);
    [constructor; [exact read_row_good | constructor]
    | exact malformed_bad |].
  rewrite (read_csv_raise Py.int Py.float [] [] bad [] (ValueError "abc"))
    in He0 by (constructor || exact read_row_bad).
  rewrite (read_csv_raise Py.int Py.float [good]
             [MkTrial 100 (Fin (15 / 10)) 900 99 400 8]
             bad [] (ValueError "abc")) in He1
    by (repeat constructor; exact read_row_good || exact read_row_bad).
  injection He0 as <-. injection He1 as <-.
  rewrite Hi0 in Hi1. discriminate.
Qed.

Lemma read_csv_columns_witness :
  ∃ ts, read_csv Py.int Py.float [csv_row "100" "1.5" "900" "99" "400" "8"]
        = ok (columns_of ts).
Proof.
  destruct (read_csv_columns Py.int Py.float
              [csv_row "100" "1.5" "900" "99" "400" "8"]
              (columns_of [MkTrial 100 (Fin (15 / 10)) 900 99 400 8]))
    as (ts & _ & Hc & _).
  - vm_compute. reflexivity.
  - exists [MkTrial 100 (Fin (15 / 10)) 900 99 400 8].
    vm_compute. reflexivity.
Defined.

Lemma read_csv_raise_inv_witness :
  ∃ good ts bad rest,
    [csv_row "200" "abc" "2000" "199" "900" "9"] = good ++ bad :: rest ∧
    Forall2 (λ r t, read_row Py.int Py.float r = ok t) good ts ∧
    read_row Py.int Py.float bad = raise (ValueError "abc").
Proof.
  apply (read_csv_raise_inv Py.int Py.float
           [csv_row "200" "abc" "2000" "199" "900" "9"] (ValueError "abc")).
  vm_compute. reflexivity.
Defined.

Lemma read_csv_missing_input_size_witness :
  read_csv Py.int Py.float
    [delete "InputSize" (csv_row "100" "1.5" "900" "99" "400" "8")]
  = raise (KeyError "InputSize").
Proof.
  apply (proj1 (read_csv_missing_input_size Py.int Py.float _ [])).
  vm_compute. reflexivity.
Defined.

Lemma group_and_aggregate_after_load_witness :
  ∃ a, group_and_aggregate
         (columns_of [MkTrial 100 (Fin (15 / 10)) 900 99 400 8]) = ok a.
Proof.
  destruct (group_and_aggregate_after_load Py.int Py.float
              [csv_row "100" "1.5" "900" "99" "400" "8"]
              (columns_of [MkTrial 100 (Fin (15 / 10)) 900 99 400 8]))
    as (a & Ha & _).
  - vm_compute. reflexivity.
  - by exists a.
Defined.

(** C7 as stated fails for a group of one trial whose time is [inf],
    a text that [float] accepts: the deviation is [nan], not 0. *)
Lemma std_times_single_infinite_time :
  let ts := [MkTrial 5 PInf 10 4 7 1] in
  read_csv Py.int Py.float [csv_row "5" "inf" "10" "4" "7" "1"]
  = ok (columns_of ts) ∧
  length (size_group ts 5) = 1%nat ∧
  ∃ a, group_and_aggregate (columns_of ts) = ok a ∧
       std_times a = [NaN] ∧ std_times a ≠ [Fin 0].
Proof.
  intros ts. split; [vm_compute; reflexivity|]. split; [reflexivity|].
  exists (aggregates_by_group ts [5]). split; [reflexivity|].
  cbn [std_times aggregates_by_group fmap list_fmap].
  assert (time_ms <$> size_group ts 5 = [PInf]) as -> by reflexivity.
  rewrite std_singleton. split; done.
Qed.

(** C6, on a file with the sizes 0 and 5: the loop of the growth
    analysis computes the quotient
    [unique_sizes[i] / unique_sizes[i - 1]] of the two sizes, which it
    never uses, before the theoretical ratio.  The file loads, its
    unique sizes are 0 and 5, the aggregation returns a mean for each,
    and at the one adjacent pair that quotient raises
    [ZeroDivisionError]: no ratio is produced, whatever the two mean
    times are. *)
Theorem growth_transitions_size_zero :
  let rows := [csv_row "0" "0.001" "0" "0" "0" "1";
               csv_row "5" "0.002" "7" "4" "6" "1"] in
  (∃ c a, read_csv Py.int Py.float rows = ok c ∧
          unique_sizes c = [0; 5] ∧
          group_and_aggregate c = ok a ∧
          length (avg_times a) = 2%nat ∧
          growth_transitions (unique_sizes c) (avg_times a)
          = raise ZeroDivisionError) ∧
  ∀ t0 t5, growth_transitions [0; 5] [t0; t5] = raise ZeroDivisionError.
Proof.
  intros rows. split; [|reflexivity].
  set (ts := [MkTrial 0 (Fin (1 / 1000)) 0 0 0 1;
              MkTrial 5 (Fin (2 / 1000)) 7 4 6 1]).
  exists (columns_of ts), (aggregates_by_group ts [0; 5]).
  split; [vm_compute; reflexivity|].
  repeat split; reflexivity.
Qed.
